(** * nsDiskModule: the disk tier of the network cache

    A shallow embedding of [nsDiskModule] (constructor, destructor, [InitDB],
    [AddObject], the two [Contains] overloads and the two [GetObject]
    overloads) together with the properties of the on-disk store that the
    module implements: round trip, overwrite, lazy open, flush after write,
    and the effects on the caller's cache object.

    C++ pointers to cache objects are modelled by [option nsCacheObject]
    ([None] is the null pointer, [Some o] a pointer whose pointee is [o]); a
    method that writes through such a pointer returns the pointee's new
    state.  [const char*] arguments are [option string]: the string holds the
    chars found at the pointer when the call is made, and a NUL char inside
    it (or its end) terminates the C string.  The two buffers of a cache
    object, its url and its metadata blob, also have an address each, because
    [AddObject] keeps these addresses in static variables and frees the
    buffers at its next call. *)

From Stdlib Require Import ZArith List.
From Stdlib.Strings Require Import String Ascii Byte.
From stdpp Require Import base option list gmap strings.

Local Open Scope Z_scope.

(* ===================================================================== *)
(** ** Bytes and C strings *)
(* ===================================================================== *)

Abbreviation bytes := (list byte).

#[global] Instance byte_eq_decision : EqDecision byte := Byte.byte_eq_dec.

#[global] Instance byte_countable : Countable byte :=
  inj_countable Byte.to_N Byte.of_N Byte.of_to_N.

(** The char a [const char*] points at ([*s]); the end of the Rocq string
    stands for the terminating NUL. *)
Definition deref (s : string) : ascii :=
  match s with
  | EmptyString => Ascii.zero
  | String c _ => c
  end.

(** [!*s] *)
Definition is_nul (c : ascii) : bool := Ascii.eqb c Ascii.zero.

(** [PL_strlen] of NSPR's plstr.h, C's [strlen]: the number of chars before
    the terminating NUL. *)
Fixpoint PL_strlen (s : string) : nat :=
  match s with
  | EmptyString => 0%nat
  | String c s' => if is_nul c then 0%nat else S (PL_strlen s')
  end.

(** The cast [(void* ) s]: the same memory, seen as bytes. *)
Definition void_of_string (s : string) : bytes := list_byte_of_string s.

(* ===================================================================== *)
(** ** The storage engine (mcom_db.h) *)
(* ===================================================================== *)

(** [DBT]: a pointer and a byte count; it designates the first [size] bytes
    found at [data]. *)
Record DBT := mkDBT { data : bytes; size : nat }.

Definition dbt_payload (d : DBT) : bytes := take (size d) (data d).

(** A local [DBT] that has not been assigned yet; its content is never read. *)
Definition DBT_uninit : DBT := mkDBT [] 0.

Inductive DBTYPE := DB_BTREE | DB_HASH | DB_RECNO.

Inductive oflag := O_RDWR | O_CREAT.

Record HASHINFO := mkHASHINFO {
  bsize : Z;      (* bucket size *)
  ffactor : Z;    (* fill factor *)
  nelem : Z;      (* number of elements *)
  cachesize : Z;  (* bytes to cache *)
  hash : Z;       (* hash function, 0 for the default one *)
  lorder : Z      (* byte order *)
}.

Definition RET_ERROR : Z := -1.
Definition RET_SUCCESS : Z := 0.
Definition RET_SPECIAL : Z := 1.

(** The calls that reach the backing file, in the order they were made. *)
Inductive DBEvent :=
| EvPut (key value : bytes) (status : Z)
| EvSync (status : Z).

(** Modelled from the spec: the hash-table storage engine behind [m_pDB]
    ([DB] of mcom_db.h with its [put], [get], [sync] and [close] methods, and
    [dbopen]) is not among the sources.  The spec describes it as an on-disk
    hash table with one entry per key, where a write overwrites the entry of
    its key, a missing key is reported as absent, and a write or a flush can
    fail.  [db_mem] is the table as the open handle sees it, [db_disk] what
    has been flushed to the backing file, [db_log] the trace of writes and
    flushes. *)
Record DB := mkDB {
  db_mem : gmap bytes bytes;
  db_disk : gmap bytes bytes;
  db_log : list DBEvent
}.

(** What the rest of the machine does during one call of the module: the
    outcome of [dbopen] on the backing file (whether the path can be opened
    or created, and with which content), whether a write, a flush or the
    flush of a close fails during this call, and the bytes that a read finds
    in a buffer that has been freed. *)
Record IO := mkIO {
  dbopen : string → list oflag → Z → DBTYPE → HASHINFO → option DB;
  put_fails : bool;
  sync_fails : bool;
  close_fails : bool;
  freed_mem : N → bytes
}.

(** Modelled from the spec: the engine's write, [( *db->put)(db, &key, &data,
    flags)], is not among the sources.  It overwrites any entry of the key
    and returns 0, or fails, returns -1 and leaves the table as it was.  The
    module only passes flags 0. *)
Definition db_put (io : IO) (db : DB) (key dat : DBT) (flags : Z) : Z * DB :=
  if put_fails io
  then (RET_ERROR,
        mkDB (db_mem db) (db_disk db)
             (db_log db ++ [EvPut (dbt_payload key) (dbt_payload dat) RET_ERROR]))
  else (RET_SUCCESS,
        mkDB (<[dbt_payload key := dbt_payload dat]> (db_mem db)) (db_disk db)
             (db_log db ++ [EvPut (dbt_payload key) (dbt_payload dat) RET_SUCCESS])).

(** Modelled from the spec: the engine's lookup, [( *db->get)(db, &key, &data,
    flags)], is not among the sources.  It returns 0 and fills the
    out-parameter [data] with the entry of the key; a missing key is reported
    as absent (status 1), never as an error.  The result is the status and
    the new content of [data]. *)
Definition db_get (db : DB) (key dat : DBT) (flags : Z) : Z * DBT :=
  match db_mem db !! dbt_payload key with
  | Some v => (RET_SUCCESS, mkDBT v (length v))
  | None => (RET_SPECIAL, dat)
  end.

(** Modelled from the spec: the engine's flush, [( *db->sync)(db, flags)], is
    not among the sources.  It brings the backing file up to date with the
    table and returns 0, or fails and returns -1. *)
Definition db_sync (io : IO) (db : DB) (flags : Z) : Z * DB :=
  if sync_fails io
  then (RET_ERROR, mkDB (db_mem db) (db_disk db) (db_log db ++ [EvSync RET_ERROR]))
  else (RET_SUCCESS, mkDB (db_mem db) (db_mem db) (db_log db ++ [EvSync RET_SUCCESS])).

(** Modelled from the spec: the engine's [( *db->close)(db)] is not among the
    sources.  The spec has the handle flushed and released on shutdown: the
    close writes the table to the backing file and releases the handle, and
    when that last flush fails the file keeps what had been flushed before.
    The result is what the backing file holds from then on. *)
Definition db_close (io : IO) (db : DB) : gmap bytes bytes :=
  if close_fails io then db_disk db else db_mem db.

(* ===================================================================== *)
(** ** The cache object (nsCacheObject.h) *)
(* ===================================================================== *)

(** Modelled from the spec: the class [nsCacheObject] is not among the
    sources.  The spec gives a cache entry an address (the lookup key, a
    string), an opaque metadata blob with its byte length, and a mutable
    owning-module tag.  The url and the blob are held in two buffers:
    [m_Address] and [m_Info] are the addresses of these buffers (0 for a null
    pointer), [m_AddressChars] and [m_InfoBytes] what the buffers hold. *)
Record nsCacheObject := mkObject {
  m_Address : N;
  m_AddressChars : string;
  m_Info : N;
  m_InfoBytes : bytes;
  m_Module : Z
}.

(** Modelled from the spec: the accessor [Address()] of the absent class, the
    lookup key as a [const char*]. *)
Definition Address (o : nsCacheObject) : option string :=
  if (m_Address o =? 0)%N then None else Some (m_AddressChars o).

(** Modelled from the spec: the accessor [Info()] of the absent class, the
    metadata blob. *)
Definition Info (o : nsCacheObject) : bytes := m_InfoBytes o.

(** Modelled from the spec: the accessor [InfoSize()] of the absent class,
    the byte length of the metadata blob. *)
Definition InfoSize (o : nsCacheObject) : nat := length (m_InfoBytes o).

(** Modelled from the spec: the accessor [Module()] of the absent class, the
    owning-module tag. *)
Definition Module_ (o : nsCacheObject) : Z := m_Module o.

(** Modelled from the spec: the value of the pointer that [Address()]
    returns, the address of the url buffer. *)
Definition Address_at (o : nsCacheObject) : N := m_Address o.

(** Modelled from the spec: the value of the pointer that [Info()] returns,
    the address of the blob buffer. *)
Definition Info_at (o : nsCacheObject) : N := m_Info o.

(** Modelled from the spec: the setter [Module(n)] of the absent class; it
    sets the owning-module tag. *)
Definition set_Module (o : nsCacheObject) (n : Z) : nsCacheObject :=
  mkObject (m_Address o) (m_AddressChars o) (m_Info o) (m_InfoBytes o) n.

(** Modelled from the spec: the setter [Info(void* )] of the absent class; the
    entry takes the stored blob as its metadata. *)
Definition set_Info (o : nsCacheObject) (d : bytes) : nsCacheObject :=
  mkObject (m_Address o) (m_AddressChars o) (m_Info o) d (m_Module o).

(** What the module takes from the rest of the cache library: the path of the
    backing file ([nsCachePref::DiskCacheDBFilename()]), the tag of the disk
    tier ([nsCacheManager::DISK]) and a default-constructed cache object
    ([new nsCacheObject()]). *)
Class CacheLib := mkCacheLib {
  DiskCacheDBFilename : string;
  DISK : Z;
  new_nsCacheObject : nsCacheObject
}.

(* ===================================================================== *)
(** ** nsDiskModule *)
(* ===================================================================== *)

(** The object state: the handle of the backing file, [None] for the null
    pointer (not open). *)
Record nsDiskModule := mkModule { m_pDB : option DB }.

(** The function-static [DBT key, data] of [AddObject], as far as they
    outlive a call: the pointers [key.data] and [data.data] (0 when null).
    The sizes are assigned before they are read. *)
Record Statics := mkStatics { key_data : N; data_data : N }.

(** The statics before the first call of [AddObject]. *)
Definition Statics_init : Statics := mkStatics 0 0.

(** NSPR's [PR_FREEIF(p)], [if (p) { PR_Free(p); p = 0; }]: the buffers it
    frees. *)
Definition PR_FREEIF (p : N) : list N :=
  if (p =? 0)%N then [] else [p].

(** A read of the buffer at address [a], which holds [content] unless it is
    among the buffers that have been [freed]. *)
Definition read_bytes (io : IO) (freed : list N) (a : N) (content : bytes) : bytes :=
  if bool_decide (a ∈ freed) then freed_mem io a else content.

(** The same read through a [const char*]. *)
Definition read_chars (io : IO) (freed : list N) (a : N) (content : string) : string :=
  string_of_list_byte (read_bytes io freed a (void_of_string content)).

Section DiskModule.
Context `{CacheLib}.

(** The constructor: [nsCacheModule(size), m_pDB(0)]; the state of the base
    class plays no part in the methods below. *)
Definition nsDiskModule_new (size : Z) : nsDiskModule := mkModule None.

(** The destructor: flushes and closes an open handle; the result is the
    module and, when a handle was open, the content left in the backing
    file. *)
Definition nsDiskModule_delete (io : IO) (this : nsDiskModule)
  : nsDiskModule * option (gmap bytes bytes) :=
  match m_pDB this with
  | Some db =>
      let '(_, db) := db_sync io db 0 in
      (mkModule None, Some (db_close io db))
  | None => (this, None)
  end.

Definition InitDB (io : IO) (this : nsDiskModule) : bool * nsDiskModule :=
  match m_pDB this with
  | Some _ => (true, this)
  | None =>
      let hash_info :=
        mkHASHINFO (16 * 1024) (* bucket size *)
                   0           (* fill factor *)
                   0           (* number of elements *)
                   0           (* bytes to cache *)
                   0           (* hash function *)
                   0           (* byte order *) in
      let this :=
        mkModule (dbopen io DiskCacheDBFilename [O_RDWR; O_CREAT]
                         384 (* 0600 *) DB_HASH hash_info) in
      match m_pDB this with
      | None => (false, this)
      | Some _ => (true, this)
      end
  end.

(** [if (!m_pDB) { pThis->InitDB(); }], the prologue of the const methods. *)
Definition open_if_closed (io : IO) (this : nsDiskModule) : nsDiskModule :=
  match m_pDB this with
  | None => (InitDB io this).2
  | Some _ => this
  end.

(** [AddObject(io_pObject)]: the result, the module, the pointee of
    [io_pObject] after the call, and the statics after the call.  At entry
    the statics hold the addresses of the two buffers of the entry that the
    previous call wrote; [PR_FREEIF] frees these buffers before the url and
    the blob of [io_pObject] are read, so an entry that owns one of them is
    read from freed memory.  The pointee after the call has the members that
    the call left (the tag is the only one written); its url and blob are
    shown as they were passed, and the statics tell which buffers the next
    call frees.  What freeing a buffer a second time does to the allocator
    is outside the model. *)
Definition AddObject (io : IO) (st : Statics) (this : nsDiskModule)
    (io_pObject : option nsCacheObject)
  : bool * nsDiskModule * option nsCacheObject * Statics :=
  let '(ok, this) := InitDB io this in
  if negb ok then (false, this, io_pObject, st)
  else
    match m_pDB this, io_pObject with
    | Some db, Some obj =>
        match Address obj with
        | Some _ =>
            let obj := set_Module obj DISK in
            let freed := PR_FREEIF (key_data st) ++ PR_FREEIF (data_data st) in
            let key_data := Address_at obj in
            let addr := read_chars io freed key_data (m_AddressChars obj) in
            let key := mkDBT (void_of_string addr) (PL_strlen addr) in
            let data_data := Info_at obj in
            let dat := mkDBT (read_bytes io freed data_data (Info obj))
                             (InfoSize obj) in
            let '(status, db) := db_put io db key dat 0 in
            let '(status, db) :=
              if status =? 0 then db_sync io db 0 else (status, db) in
            (status =? 0, mkModule (Some db), Some obj,
             mkStatics key_data data_data)
        | None => (false, this, io_pObject, st)
        end
    | _, _ => (false, this, io_pObject, st)
    end.

(** [GetObject(const PRUint32 i_index)] *)
Definition GetObject_index (io : IO) (this : nsDiskModule) (i_index : Z)
  : option nsCacheObject * nsDiskModule :=
  let this := open_if_closed io this in
  match m_pDB this with
  | None => (None, this)
  | Some _ => (None, this)
  end.

(** [GetObject(const char* i_url)] *)
Definition GetObject_url (io : IO) (this : nsDiskModule) (i_url : option string)
  : option nsCacheObject * nsDiskModule :=
  let this := open_if_closed io this in
  match m_pDB this, i_url with
  | Some db, Some url =>
      if is_nul (deref url) then (None, this)
      else
        let key := mkDBT (void_of_string url) (PL_strlen url) in
        let '(status, dat) := db_get db key DBT_uninit 0 in
        if 0 =? status then
          let pTemp := new_nsCacheObject in
          let pTemp := set_Info pTemp (data dat) in
          (Some pTemp, this)
        else (None, this)
  | _, _ => (None, this)
  end.

(** [Contains(const char* i_url)] *)
Definition Contains_url (io : IO) (this : nsDiskModule) (i_url : option string)
  : bool * nsDiskModule :=
  let this := open_if_closed io this in
  match m_pDB this, i_url with
  | Some db, Some url =>
      if is_nul (deref url) then (false, this)
      else
        let key := mkDBT (void_of_string url) (PL_strlen url) in
        let '(status, dat) := db_get db key DBT_uninit 0 in
        (status =? 0, this)
  | _, _ => (false, this)
  end.

(** The body of [Contains(nsCacheObject* io_pObject)]: the result, the
    module, and the value of the parameter [io_pObject] when the body
    returns. *)
Definition Contains_obj_body (io : IO) (this : nsDiskModule)
    (io_pObject : option nsCacheObject)
  : bool * nsDiskModule * option nsCacheObject :=
  let this := open_if_closed io this in
  match m_pDB this, io_pObject with
  | Some _, Some obj =>
      let '(pTemp, this) := GetObject_url io this (Address obj) in
      match pTemp with
      | Some _ =>
          let io_pObject := pTemp in
          (true, this, io_pObject)
      | None => (false, this, io_pObject)
      end
  | _, _ => (false, this, io_pObject)
  end.

(** [Contains(nsCacheObject* io_pObject)] as its caller sees it.  The pointer
    is passed by value and nothing is written through it: the caller gets the
    result and keeps the pointer and the pointee it passed. *)
Definition Contains_obj (io : IO) (this : nsDiskModule)
    (io_pObject : option nsCacheObject)
  : bool * nsDiskModule * option nsCacheObject :=
  let '(r, this, _) := Contains_obj_body io this io_pObject in
  (r, this, io_pObject).

End DiskModule.

(* ===================================================================== *)
(** ** Sequences of calls *)
(* ===================================================================== *)

(** The bytes under which the engine files the C string [url]: the payload of
    the [key] that [AddObject], [Contains] and [GetObject] build from it. *)
Definition url_key (url : string) : bytes :=
  dbt_payload (mkDBT (void_of_string url) (PL_strlen url)).

(** The buffers that [AddObject] frees when it is entered with the statics
    [st]. *)
Definition AddObject_frees (st : Statics) : list N :=
  PR_FREEIF (key_data st) ++ PR_FREEIF (data_data st).

(** The statics hold neither buffer of the entry: [AddObject] frees none of
    them.  This is so at the first call, and at a later call for an entry
    that is not the one the previous call wrote. *)
Definition not_held (st : Statics) (obj : nsCacheObject) : Prop :=
  (Address_at obj ∉ AddObject_frees st) ∧ (Info_at obj ∉ AddObject_frees st).

(** The key and the blob that [AddObject] hands to the engine for the entry:
    what it reads at the two buffers once the statics' buffers are freed. *)
Definition AddObject_key (io : IO) (st : Statics) (obj : nsCacheObject) : bytes :=
  url_key (read_chars io (AddObject_frees st) (Address_at obj) (m_AddressChars obj)).

Definition AddObject_blob (io : IO) (st : Statics) (obj : nsCacheObject) : bytes :=
  dbt_payload (mkDBT (read_bytes io (AddObject_frees st) (Info_at obj) (Info obj))
                     (InfoSize obj)).

(** A call of a public method, and what it returns. *)
Inductive Call :=
| CallAddObject (io_pObject : option nsCacheObject)
| CallContainsObject (io_pObject : option nsCacheObject)
| CallContains (i_url : option string)
| CallGetObjectAt (i_index : Z)
| CallGetObject (i_url : option string).

Inductive Ret :=
| RetBool (b : bool)
| RetObject (p : option nsCacheObject).

(** [PR_FALSE] or a null object. *)
Definition ret_failed (r : Ret) : bool :=
  match r with
  | RetBool b => negb b
  | RetObject p => match p with None => true | Some _ => false end
  end.

(** The call is one of the lookups: any method but [AddObject]. *)
Definition is_lookup (c : Call) : bool :=
  match c with
  | CallAddObject _ => false
  | _ => true
  end.


(** The call, made with the statics [st], is an [AddObject] of an entry with
    an address whose write is made under [key] and does not fail. *)
Definition call_writes (key : bytes) (io : IO) (st : Statics) (c : Call) : Prop :=
  match c with
  | CallAddObject (Some obj) =>
      is_Some (Address obj) ∧ AddObject_key io st obj = key ∧ put_fails io = false
  | _ => False
  end.

Section Calls.
Context `{CacheLib}.

Definition call (io : IO) (st : Statics) (this : nsDiskModule) (c : Call)
  : Ret * nsDiskModule * Statics :=
  match c with
  | CallAddObject p =>
      let '(r, this, _, st) := AddObject io st this p in (RetBool r, this, st)
  | CallContainsObject p =>
      let '(r, this, _) := Contains_obj io this p in (RetBool r, this, st)
  | CallContains u =>
      let '(r, this) := Contains_url io this u in (RetBool r, this, st)
  | CallGetObjectAt i =>
      let '(p, this) := GetObject_index io this i in (RetObject p, this, st)
  | CallGetObject u =>
      let '(p, this) := GetObject_url io this u in (RetObject p, this, st)
  end.

(** The calls [cs] made one after the other, each with what the rest of the
    machine does during it. *)
Fixpoint run (cs : list (IO * Call)) (st : Statics) (this : nsDiskModule)
  : list Ret * nsDiskModule * Statics :=
  match cs with
  | [] => ([], this, st)
  | (io, c) :: cs' =>
      let '(r, this, st) := call io st this c in
      let '(rs, this, st) := run cs' st this in
      (r :: rs, this, st)
  end.

(** One of the calls [cs], made one after the other from the statics [st]
    and the module [this], is an [AddObject] whose write is made under [key]
    and does not fail. *)
Fixpoint run_writes (key : bytes) (cs : list (IO * Call)) (st : Statics)
    (this : nsDiskModule) : Prop :=
  match cs with
  | [] => False
  | (io, c) :: cs' =>
      call_writes key io st c ∨
      run_writes key cs' (call io st this c).2 (call io st this c).1.2
  end.

(** [dbopen] fails during a call that finds the module not open. *)
Definition open_fails (io : IO) : Prop :=
  (InitDB io (nsDiskModule_new 0)).1 = false.

End Calls.

(** How the handle [db'] after some calls relates to the handle [db] before
    them, where [flushes_ok] says that none of their flushes failed: no key
    has gone, the trace has only grown, and a store whose table was flushed
    still is when no flush failed. *)
Definition evolves (flushes_ok : Prop) (db db' : DB) : Prop :=
  (∀ key, is_Some (db_mem db !! key) → is_Some (db_mem db' !! key)) ∧
  (∃ evs, db_log db' = db_log db ++ evs) ∧
  (flushes_ok → db_disk db = db_mem db → db_disk db' = db_mem db').

(* ===================================================================== *)
(** ** A concrete store *)
(* ===================================================================== *)

Module Scenario.

Definition B (s : string) : bytes := list_byte_of_string s.

Definition lib : CacheLib :=
  mkCacheLib "cache.db" 1 (mkObject 0 "" 0 [] (-1)).

(** A backing file that has just been created. *)
Definition fresh_db : DB := mkDB ∅ ∅ [].

(** What the allocator has left in a buffer that was freed. *)
Definition garbage : bytes := [xd0; x5e; xad; x0b].

(** The path can be opened and nothing fails. *)
Definition io_ok : IO :=
  mkIO (λ _ _ _ _ _, Some fresh_db) false false false (λ _, garbage).
(** The path cannot be opened. *)
Definition io_unwritable : IO :=
  mkIO (λ _ _ _ _ _, None) false false false (λ _, garbage).
(** The write fails. *)
Definition io_put_fails : IO :=
  mkIO (λ _ _ _ _ _, Some fresh_db) true false false (λ _, garbage).
(** The write goes through and the flush after it fails. *)
Definition io_sync_fails : IO :=
  mkIO (λ _ _ _ _ _, Some fresh_db) false true false (λ _, garbage).

Definition closed : nsDiskModule := @nsDiskModule_new 100.
Definition opened : nsDiskModule := mkModule (Some fresh_db).

Definition url_a : string := "http://a".
Definition url_b : string := "http://b".

(** Four entries, each with buffers of its own. *)
Definition entry1 : nsCacheObject := mkObject 4096 url_a 8192 (B "meta1") 0.
Definition entry2 : nsCacheObject := mkObject 12288 url_a 16384 (B "meta2") 0.
Definition entry_b : nsCacheObject := mkObject 20480 url_b 24576 (B "other") 0.
Definition probe : nsCacheObject := mkObject 28672 url_a 0 [] 0.
Definition entry_empty_key : nsCacheObject := mkObject 36864 "" 40960 (B "meta") 0.

(** [entry1] once [AddObject] has seen it: the same object, tagged. *)
Definition entry1_tagged : nsCacheObject := set_Module entry1 1.

(** [entry1] after its owner has given it a new blob, in a new buffer: the
    same object, with the same url buffer. *)
Definition entry1_updated : nsCacheObject :=
  mkObject 4096 url_a 32768 (B "meta2") 1.

(** The store and the statics after [AddObject(entry1)] on the new store. *)
Definition with_entry1 : nsDiskModule :=
  (@AddObject lib io_ok Statics_init opened (Some entry1)).1.1.2.

Definition st_entry1 : Statics :=
  (@AddObject lib io_ok Statics_init opened (Some entry1)).2.

(** The handle of that store. *)
Definition db_entry1 : DB :=
  mkDB {[ B url_a := B "meta1" ]} {[ B url_a := B "meta1" ]}
       [EvPut (B url_a) (B "meta1") RET_SUCCESS; EvSync RET_SUCCESS].

End Scenario.

(* ===================================================================== *)
(** ** Basic facts *)
(* ===================================================================== *)

Section Basics.
Context `{CacheLib}.

Lemma dbt_payload_whole (v : bytes) : dbt_payload (mkDBT v (length v)) = v.
Proof. unfold dbt_payload; simpl. apply firstn_all. Qed.

Lemma module_eta (this : nsDiskModule) (db : DB) :
  m_pDB this = Some db → this = mkModule (Some db).
Proof. destruct this as [m]. simpl. by intros ->. Qed.

Lemma InitDB_open (io : IO) (this : nsDiskModule) (db : DB) :
  m_pDB this = Some db → InitDB io this = (true, this).
Proof. intros E. unfold InitDB. by rewrite E. Qed.

Lemma InitDB_result (io : IO) (this : nsDiskModule) :
  (InitDB io this).1 = bool_decide (is_Some (m_pDB (InitDB io this).2)).
Proof.
  unfold InitDB. destruct (m_pDB this) as [db|] eqn:E; simpl.
  - rewrite E. symmetry. apply bool_decide_eq_true. eauto.
  - by destruct (dbopen io _ _ _ _ _) as [db|].
Qed.

Lemma InitDB_closed_fails (io : IO) (this : nsDiskModule) :
  m_pDB this = None → open_fails io → InitDB io this = (false, mkModule None).
Proof.
  unfold open_fails, InitDB, nsDiskModule_new. intros ->. simpl.
  by destruct (dbopen io _ _ _ _ _).
Qed.

Lemma open_if_closed_open (io : IO) (this : nsDiskModule) (db : DB) :
  m_pDB this = Some db → open_if_closed io this = this.
Proof. intros E. unfold open_if_closed. by rewrite E. Qed.

Lemma open_if_closed_InitDB (io : IO) (this : nsDiskModule) :
  open_if_closed io this = (InitDB io this).2.
Proof.
  unfold open_if_closed. destruct (m_pDB this) as [db|] eqn:E; [|done].
  by rewrite (InitDB_open io this db E).
Qed.

Lemma open_if_closed_fails (io : IO) (this : nsDiskModule) :
  m_pDB this = None → open_fails io → open_if_closed io this = mkModule None.
Proof.
  intros E F. rewrite open_if_closed_InitDB.
  by rewrite (InitDB_closed_fails io this E F).
Qed.

Lemma open_if_closed_idem (io : IO) (this : nsDiskModule) :
  open_if_closed io (open_if_closed io this) = open_if_closed io this.
Proof.
  unfold open_if_closed at 2. destruct (m_pDB this) as [db|] eqn:E.
  - by rewrite (open_if_closed_open io this db E).
  - unfold open_if_closed, InitDB. rewrite E. simpl.
    by destruct (dbopen io _ _ _ _ _).
Qed.

Lemma Address_chars (obj : nsCacheObject) (addr : string) :
  Address obj = Some addr → m_AddressChars obj = addr ∧ Address_at obj ≠ 0%N.
Proof.
  unfold Address, Address_at.
  destruct (m_Address obj =? 0)%N eqn:E; [done|].
  intros [= <-]. split; [done|]. by apply N.eqb_neq.
Qed.

Lemma read_chars_live (io : IO) (freed : list N) (a : N) (s : string) :
  a ∉ freed → read_chars io freed a s = s.
Proof.
  intros NI. unfold read_chars, read_bytes, void_of_string.
  rewrite bool_decide_eq_false_2 by done.
  apply string_of_list_byte_of_string.
Qed.

Lemma read_bytes_live (io : IO) (freed : list N) (a : N) (v : bytes) :
  a ∉ freed → read_bytes io freed a v = v.
Proof. intros NI. unfold read_bytes. by rewrite bool_decide_eq_false_2. Qed.

(** An entry whose buffers the statics do not hold is written as it was
    passed: under the key of its address, with its blob. *)
Lemma not_held_read (io : IO) (st : Statics) (obj : nsCacheObject) (addr : string) :
  not_held st obj → Address obj = Some addr →
  AddObject_key io st obj = url_key addr ∧ AddObject_blob io st obj = Info obj.
Proof.
  intros [NA NI] EA. apply Address_chars in EA as [<- _].
  unfold AddObject_key, AddObject_blob.
  rewrite (read_chars_live io _ _ _ NA), (read_bytes_live io _ _ _ NI).
  split; [done|]. apply dbt_payload_whole.
Qed.

Lemma not_held_init (obj : nsCacheObject) : not_held Statics_init obj.
Proof. split; apply not_elem_of_nil. Qed.

(** [AddObject] of an entry with an address on an open store, case by case:
    the write fails; the write goes through and the flush fails; both go
    through. *)
Lemma AddObject_open_eq (io : IO) (st : Statics) (db : DB)
    (obj : nsCacheObject) (addr : string) :
  Address obj = Some addr →
  AddObject io st (mkModule (Some db)) (Some obj) =
    let k := AddObject_key io st obj in
    let v := AddObject_blob io st obj in
    let st' := mkStatics (Address_at obj) (Info_at obj) in
    if put_fails io then
      (false,
       mkModule (Some (mkDB (db_mem db) (db_disk db)
         (db_log db ++ [EvPut k v RET_ERROR]))),
       Some (set_Module obj DISK), st')
    else if sync_fails io then
      (false,
       mkModule (Some (mkDB (<[k := v]> (db_mem db)) (db_disk db)
         (db_log db ++ [EvPut k v RET_SUCCESS; EvSync RET_ERROR]))),
       Some (set_Module obj DISK), st')
    else
      (true,
       mkModule (Some (mkDB (<[k := v]> (db_mem db)) (<[k := v]> (db_mem db))
         (db_log db ++ [EvPut k v RET_SUCCESS; EvSync RET_SUCCESS]))),
       Some (set_Module obj DISK), st').
Proof.
  intros EA. unfold AddObject. simpl. rewrite EA.
  unfold db_put, db_sync. simpl.
  change (dbt_payload
            (mkDBT (void_of_string
                      (read_chars io (PR_FREEIF (key_data st) ++ PR_FREEIF (data_data st))
                                  (Address_at obj) (m_AddressChars obj)))
                   (PL_strlen
                      (read_chars io (PR_FREEIF (key_data st) ++ PR_FREEIF (data_data st))
                                  (Address_at obj) (m_AddressChars obj)))))
    with (AddObject_key io st obj).
  change (dbt_payload
            (mkDBT (read_bytes io (PR_FREEIF (key_data st) ++ PR_FREEIF (data_data st))
                               (Info_at obj) (Info obj))
                   (InfoSize obj)))
    with (AddObject_blob io st obj).
  destruct (put_fails io); simpl; [done|].
  destruct (sync_fails io); simpl; by rewrite <- app_assoc.
Qed.

Lemma AddObject_open_null (io : IO) (st : Statics) (db : DB)
    (p : option nsCacheObject) :
  (∀ obj, p = Some obj → Address obj = None) →
  AddObject io st (mkModule (Some db)) p = (false, mkModule (Some db), p, st).
Proof.
  intros N. unfold AddObject. simpl. destruct p as [obj|]; [|done].
  by rewrite (N obj eq_refl).
Qed.

Lemma AddObject_after_InitDB (io : IO) (st : Statics) (this : nsDiskModule)
    (p : option nsCacheObject) :
  AddObject io st this p = AddObject io st (InitDB io this).2 p.
Proof.
  destruct this as [[db|]]; [done|].
  unfold AddObject, InitDB. simpl. by destruct (dbopen io _ _ _ _ _).
Qed.

Lemma AddObject_closed_fails (io : IO) (st : Statics) (this : nsDiskModule)
    (p : option nsCacheObject) :
  m_pDB this = None → open_fails io →
  AddObject io st this p = (false, mkModule None, p, st).
Proof.
  intros E F. unfold AddObject. by rewrite (InitDB_closed_fails io this E F).
Qed.

(** What a successful [AddObject] did: the store was open or could be opened,
    the entry and its address were not null, the write and the flush both
    succeeded, and the new table is the old one with what was read of the
    entry filed under the key that was read. *)
Lemma AddObject_true_inv (io : IO) (st st' : Statics) (this this' : nsDiskModule)
    (p p' : option nsCacheObject) :
  AddObject io st this p = (true, this', p', st') →
  ∃ db obj addr,
    m_pDB (InitDB io this).2 = Some db ∧ p = Some obj ∧ Address obj = Some addr ∧
    put_fails io = false ∧ sync_fails io = false ∧
    p' = Some (set_Module obj DISK) ∧
    st' = mkStatics (Address_at obj) (Info_at obj) ∧
    this' = mkModule (Some
      (mkDB (<[AddObject_key io st obj := AddObject_blob io st obj]> (db_mem db))
            (<[AddObject_key io st obj := AddObject_blob io st obj]> (db_mem db))
            (db_log db ++ [EvPut (AddObject_key io st obj) (AddObject_blob io st obj)
                                 RET_SUCCESS;
                           EvSync RET_SUCCESS]))).
Proof.
  pose proof (InitDB_result io this) as R.
  destruct (m_pDB (InitDB io this).2) as [db|] eqn:E.
  - rewrite AddObject_after_InitDB, (module_eta _ db E).
    destruct p as [obj|]; [destruct (Address obj) as [addr|] eqn:EA|].
    + rewrite (AddObject_open_eq io st db obj addr EA). simpl.
      destruct (put_fails io); [done|]. destruct (sync_fails io); [done|].
      intros [= <- <- <-]. by exists db, obj, addr.
    + by rewrite AddObject_open_null; [|by intros ? [= <-]].
    + by rewrite AddObject_open_null.
  - unfold AddObject. destruct (InitDB io this) as [ok m]. simpl in *.
    by subst ok.
Qed.

End Basics.

(* ===================================================================== *)
(** ** Lookups *)
(* ===================================================================== *)

Section Lookups.
Context `{CacheLib}.

Lemma GetObject_url_open (io : IO) (this : nsDiskModule) (db : DB) (k : string) :
  m_pDB this = Some db → is_nul (deref k) = false →
  GetObject_url io this (Some k) =
    (set_Info new_nsCacheObject <$> db_mem db !! url_key k, this).
Proof.
  intros E N. unfold GetObject_url.
  rewrite (open_if_closed_open io this db E), E, N.
  unfold db_get. fold (url_key k).
  by destruct (db_mem db !! url_key k).
Qed.

Lemma Contains_url_open (io : IO) (this : nsDiskModule) (db : DB) (k : string) :
  m_pDB this = Some db → is_nul (deref k) = false →
  Contains_url io this (Some k) =
    (bool_decide (is_Some (db_mem db !! url_key k)), this).
Proof.
  intros E N. unfold Contains_url.
  rewrite (open_if_closed_open io this db E), E, N.
  unfold db_get. fold (url_key k).
  by destruct (db_mem db !! url_key k).
Qed.

Lemma lookup_results_open (io : IO) (db : DB) (u : option string) :
  (GetObject_url io (mkModule (Some db)) u).1 =
    match u with
    | Some k => if is_nul (deref k) then None
                else set_Info new_nsCacheObject <$> db_mem db !! url_key k
    | None => None
    end ∧
  (Contains_url io (mkModule (Some db)) u).1 =
    match u with
    | Some k => if is_nul (deref k) then false
                else bool_decide (is_Some (db_mem db !! url_key k))
    | None => false
    end.
Proof.
  destruct u as [k|]; [|done].
  destruct (is_nul (deref k)) eqn:N.
  { unfold GetObject_url, Contains_url. simpl. by rewrite N. }
  rewrite (GetObject_url_open io (mkModule (Some db)) db k eq_refl N).
  by rewrite (Contains_url_open io (mkModule (Some db)) db k eq_refl N).
Qed.

Lemma GetObject_url_unavailable (io : IO) (this : nsDiskModule) (u : option string) :
  m_pDB (open_if_closed io this) = None →
  GetObject_url io this u = (None, open_if_closed io this).
Proof. intros E. unfold GetObject_url. by rewrite E. Qed.

Lemma Contains_url_unavailable (io : IO) (this : nsDiskModule) (u : option string) :
  m_pDB (open_if_closed io this) = None →
  Contains_url io this u = (false, open_if_closed io this).
Proof. intros E. unfold Contains_url. by rewrite E. Qed.

(** The lookups leave the module as the lazy open leaves it. *)
Lemma GetObject_url_module (io : IO) (this : nsDiskModule) (u : option string) :
  (GetObject_url io this u).2 = open_if_closed io this.
Proof.
  unfold GetObject_url.
  destruct (m_pDB (open_if_closed io this)) as [db|]; [|done].
  destruct u as [url|]; [|done].
  destruct (is_nul (deref url)); [done|].
  destruct (db_get db _ _ _) as [s d]. by destruct (0 =? s).
Qed.

Lemma Contains_url_module (io : IO) (this : nsDiskModule) (u : option string) :
  (Contains_url io this u).2 = open_if_closed io this.
Proof.
  unfold Contains_url.
  destruct (m_pDB (open_if_closed io this)) as [db|]; [|done].
  destruct u as [url|]; [|done].
  destruct (is_nul (deref url)); [done|].
  by destruct (db_get db _ _ _) as [s d].
Qed.

Lemma GetObject_index_module (io : IO) (this : nsDiskModule) (i : Z) :
  (GetObject_index io this i).2 = open_if_closed io this.
Proof.
  unfold GetObject_index. by destruct (m_pDB (open_if_closed io this)).
Qed.

Lemma Contains_obj_body_module (io : IO) (this : nsDiskModule)
    (p : option nsCacheObject) :
  (Contains_obj_body io this p).1.2 = open_if_closed io this.
Proof.
  unfold Contains_obj_body.
  destruct (m_pDB (open_if_closed io this)) as [db|]; [|done].
  destruct p as [obj|]; [|done].
  pose proof (GetObject_url_module io (open_if_closed io this) (Address obj)) as M.
  rewrite open_if_closed_idem in M.
  destruct (GetObject_url io (open_if_closed io this) (Address obj)) as [t m].
  simpl in M. subst m. by destruct t.
Qed.

Lemma Contains_obj_module (io : IO) (this : nsDiskModule)
    (p : option nsCacheObject) :
  (Contains_obj io this p).1.2 = open_if_closed io this.
Proof.
  unfold Contains_obj.
  pose proof (Contains_obj_body_module io this p) as M.
  by destruct (Contains_obj_body io this p) as [[r m] q].
Qed.

Lemma lookup_call_module (io : IO) (st : Statics) (this : nsDiskModule) (c : Call) :
  is_lookup c = true →
  (call io st this c).1.2 = open_if_closed io this ∧ (call io st this c).2 = st.
Proof.
  intros L. destruct c as [p|p|u|i|u]; simpl; [done|..].
  - pose proof (Contains_obj_module io this p) as M.
    by destruct (Contains_obj io this p) as [[r m] q].
  - pose proof (Contains_url_module io this u) as M.
    by destruct (Contains_url io this u) as [r m].
  - pose proof (GetObject_index_module io this i) as M.
    by destruct (GetObject_index io this i) as [r m].
  - pose proof (GetObject_url_module io this u) as M.
    by destruct (GetObject_url io this u) as [r m].
Qed.

End Lookups.

(* ===================================================================== *)
(** ** Flush after write *)
(* ===================================================================== *)

Section WriteThenFlush.
Context `{CacheLib}.

(** C5.  Whenever [AddObject] returns [PR_TRUE], neither the write nor the
    flush of that call failed, the last two calls on the backing file are the
    write of the entry and, after it, a flush, both with status 0, and what
    has been flushed to the file is the whole table, with the entry in it.
    The entry is written as it is read once the buffers that the statics
    held are freed: under the key of its address and with its blob when the
    statics held none of its buffers. *)
Theorem AddObject_true_flushed
    (io : IO) (st st' : Statics) (this this' : nsDiskModule)
    (p p' : option nsCacheObject) :
  AddObject io st this p = (true, this', p', st') →
  put_fails io = false ∧ sync_fails io = false ∧
  ∃ db db' obj addr,
    m_pDB (InitDB io this).2 = Some db ∧ m_pDB this' = Some db' ∧
    p = Some obj ∧ Address obj = Some addr ∧
    db_log db' = db_log db ++ [EvPut (AddObject_key io st obj)
                                     (AddObject_blob io st obj) RET_SUCCESS;
                               EvSync RET_SUCCESS] ∧
    db_disk db' = db_mem db' ∧
    db_disk db' !! AddObject_key io st obj = Some (AddObject_blob io st obj) ∧
    (not_held st obj →
     AddObject_key io st obj = url_key addr ∧ AddObject_blob io st obj = Info obj).
Proof.
  intros HA.
  apply AddObject_true_inv in HA
    as (db & obj & addr & Edb & -> & EA & EP & ES & _ & _ & ->).
  split; [done|]. split; [done|].
  eexists db, _, obj, addr. repeat split; try done.
  - simpl. apply lookup_insert_eq.
  - by apply (not_held_read io st obj addr).
  - by apply (not_held_read io st obj addr).
Qed.

End WriteThenFlush.

(* ===================================================================== *)
(** ** Membership and lookup *)
(* ===================================================================== *)

Section Membership.
Context `{CacheLib}.

(** C7.  Whatever the index and whatever the state of the module, open or
    not, [GetObject(i_index)] returns the null object. *)
Theorem GetObject_index_null (io : IO) (this : nsDiskModule) (i_index : Z) :
  (GetObject_index io this i_index).1 = None.
Proof.
  unfold GetObject_index. by destruct (m_pDB (open_if_closed io this)).
Qed.

(** C10.  For every url (null, empty or not) and every state of the module,
    [Contains(i_url)] returns [PR_TRUE] exactly when [GetObject(i_url)]
    returns an object, and both leave the module in the same state. *)
Theorem Contains_url_agrees_GetObject_url
    (io : IO) (this : nsDiskModule) (i_url : option string) :
  ((Contains_url io this i_url).1 = true ↔ is_Some (GetObject_url io this i_url).1) ∧
  (Contains_url io this i_url).2 = (GetObject_url io this i_url).2.
Proof.
  unfold Contains_url, GetObject_url.
  destruct (m_pDB (open_if_closed io this)) as [db|]; simpl;
    [|split; [split; [done | by intros [? ?]] | done]].
  destruct i_url as [url|]; simpl;
    [|split; [split; [done | by intros [? ?]] | done]].
  destruct (is_nul (deref url)); simpl;
    [split; [split; [done | by intros [? ?]] | done]|].
  unfold db_get.
  destruct (db_mem db !! _) as [v|]; simpl.
  - split; [split; eauto | done].
  - split; [split; [done | by intros [? ?]] | done].
Qed.

Lemma call_unavailable (io : IO) (st : Statics) (this : nsDiskModule) (c : Call) :
  m_pDB this = None → open_fails io →
  ret_failed (call io st this c).1.1 = true ∧
  (call io st this c).1.2 = mkModule None ∧ (call io st this c).2 = st.
Proof.
  intros E F. destruct c as [p|p|u|i|u]; simpl.
  - by rewrite (AddObject_closed_fails io st this p E F).
  - unfold Contains_obj, Contains_obj_body.
    by rewrite (open_if_closed_fails io this E F).
  - by rewrite Contains_url_unavailable;
      rewrite (open_if_closed_fails io this E F).
  - unfold GetObject_index. by rewrite (open_if_closed_fails io this E F).
  - by rewrite GetObject_url_unavailable;
      rewrite (open_if_closed_fails io this E F).
Qed.

Lemma run_unavailable (cs : list (IO * Call)) (st : Statics) (this : nsDiskModule) :
  m_pDB this = None → Forall (λ c, open_fails c.1) cs →
  Forall (λ r, ret_failed r = true) (run cs st this).1.1 ∧
  (run cs st this).1.2 = this ∧ (run cs st this).2 = st.
Proof.
  revert this. induction cs as [|[io c] cs IH]; intros this E F; [done|].
  apply Forall_cons in F as [F1 F]. simpl in F1. simpl.
  destruct (call_unavailable io st this c E F1) as (R & M & S).
  destruct (call io st this c) as [[r m] s]. simpl in R, M, S. subst m s.
  destruct (IH (mkModule None) eq_refl F) as (IH1 & IH2 & IH3).
  destruct (run cs st (mkModule None)) as [[rs m'] s']. simpl in *.
  split; [by constructor|]. subst m' s'. split; [|done].
  by destruct this as [[?|]].
Qed.

(** C6.  While the module is not open and [dbopen] fails, [AddObject] returns
    [PR_FALSE], both [GetObject] overloads return the null object and both
    [Contains] overloads return [PR_FALSE], whatever their argument, and the
    module stays not open; so every call of any sequence of calls made under
    these conditions returns [PR_FALSE] or null.  All methods are total
    functions into [bool] or [option]: a failure has no other way out. *)
Theorem unavailable_store_fails (io : IO) (st : Statics) (this : nsDiskModule) :
  m_pDB this = None → open_fails io →
  (∀ p, (AddObject io st this p).1.1.1 = false ∧
        m_pDB (AddObject io st this p).1.1.2 = None) ∧
  (∀ u, GetObject_url io this u = (None, mkModule None)) ∧
  (∀ i, GetObject_index io this i = (None, mkModule None)) ∧
  (∀ u, Contains_url io this u = (false, mkModule None)) ∧
  (∀ p, Contains_obj io this p = (false, mkModule None, p)) ∧
  (∀ cs, Forall (λ c, open_fails c.1) cs →
         Forall (λ r, ret_failed r = true) (run cs st this).1.1 ∧
         m_pDB (run cs st this).1.2 = None).
Proof.
  intros E F. repeat split.
  - by rewrite (AddObject_closed_fails io st this p E F).
  - by rewrite (AddObject_closed_fails io st this p E F).
  - intros u. rewrite GetObject_url_unavailable;
      by rewrite (open_if_closed_fails io this E F).
  - intros i. unfold GetObject_index.
    by rewrite (open_if_closed_fails io this E F).
  - intros u. rewrite Contains_url_unavailable;
      by rewrite (open_if_closed_fails io this E F).
  - intros p. unfold Contains_obj, Contains_obj_body.
    by rewrite (open_if_closed_fails io this E F).
  - by apply run_unavailable.
  - destruct (run_unavailable cs st this E) as (_ & -> & _); done.
Qed.

End Membership.

(* ===================================================================== *)
(** ** What the calls do to the table *)
(* ===================================================================== *)

Section Table.
Context `{CacheLib}.

Lemma evolves_refl (ok : Prop) (db : DB) : evolves ok db db.
Proof. repeat split; [done | | done]. exists []. by rewrite app_nil_r. Qed.

(** [AddObject] of an entry with an address on an open store: the store
    stays open, the table gains what was read of the entry unless the write
    failed, and the handle evolves. *)
Lemma AddObject_table (io : IO) (st : Statics) (db : DB)
    (obj : nsCacheObject) (addr : string) :
  Address obj = Some addr →
  ∃ db', (AddObject io st (mkModule (Some db)) (Some obj)).1.1.2 = mkModule (Some db') ∧
    db_mem db' = (if put_fails io then db_mem db
                  else <[AddObject_key io st obj := AddObject_blob io st obj]>
                         (db_mem db)) ∧
    evolves (sync_fails io = false) db db'.
Proof.
  intros EA. rewrite (AddObject_open_eq io st db obj addr EA). simpl.
  assert (∀ key, is_Some (db_mem db !! key) →
                 is_Some (<[AddObject_key io st obj := AddObject_blob io st obj]>
                            (db_mem db) !! key)) as K.
  { intros key IS. rewrite lookup_insert. by case_decide. }
  destruct (put_fails io); [|destruct (sync_fails io)]; simpl;
    (eexists; split; [done|]); simpl; (split; [done|]);
    (split; [done|]); (split; [by eexists|]); done.
Qed.

(** One call on an open store: the store stays open, the table changes at
    most under the key of a write that did not fail, and the handle evolves. *)
Lemma call_table (io : IO) (st : Statics) (db : DB) (c : Call) :
  ∃ db', (call io st (mkModule (Some db)) c).1.2 = mkModule (Some db') ∧
    (∀ key : bytes,
       is_Some (db_mem db' !! key) ↔
       is_Some (db_mem db !! key) ∨ call_writes key io st c) ∧
    (∀ key : bytes,
       ¬ call_writes key io st c → db_mem db' !! key = db_mem db !! key) ∧
    evolves (sync_fails io = false) db db'.
Proof.
  assert (∀ m, m = mkModule (Some db) →
            (∀ key, ¬ call_writes key io st c) →
            ∃ db', m = mkModule (Some db') ∧
              (∀ key : bytes, is_Some (db_mem db' !! key) ↔
                 is_Some (db_mem db !! key) ∨ call_writes key io st c) ∧
              (∀ key : bytes, ¬ call_writes key io st c →
                 db_mem db' !! key = db_mem db !! key) ∧
              evolves (sync_fails io = false) db db') as Same.
  { intros m -> NW. exists db. split; [done|]. split; [|split].
    - intros key. split; [by left|]. intros [?|W]; [done|]. by destruct (NW key).
    - done.
    - apply evolves_refl. }
  destruct (is_lookup c) eqn:L.
  { destruct (lookup_call_module io st (mkModule (Some db)) c L) as [M _].
    apply Same; [rewrite M; reflexivity|]. intros key W. by destruct c. }
  destruct c as [p| | | |]; try done.
  destruct p as [obj|]; [destruct (Address obj) as [addr|] eqn:EA|].
  - destruct (AddObject_table io st db obj addr EA) as (db' & M & T & E).
    assert (∀ key, call_writes key io st (CallAddObject (Some obj)) ↔
                   AddObject_key io st obj = key ∧ put_fails io = false) as W.
    { intros key. simpl. rewrite EA. split; [by intros (_ & ? & ?)|].
      intros [? ?]. by eauto. }
    exists db'. split.
    { simpl. by destruct (AddObject io st _ _) as [[[r m] q] s']. }
    split; [|split; [|done]].
    + intros key. rewrite W, T. destruct (put_fails io).
      * split; [by left|]. by intros [?|[_ ?]].
      * rewrite lookup_insert. case_decide as K.
        -- split; [|by eauto]. intros _. by right.
        -- split; [by left|]. by intros [?|[? _]].
    + intros key NW. rewrite W in NW. rewrite T. destruct (put_fails io); [done|].
      apply lookup_insert_ne. intros K. by apply NW.
  - apply Same.
    + unfold call. by rewrite AddObject_open_null; [|by intros ? [= <-]].
    + intros key (E & _). rewrite EA in E. by destruct E.
  - apply Same; [|by intros key []].
    unfold call. by rewrite AddObject_open_null.
Qed.

(** A sequence of calls on an open store: a key is in the table at the end
    exactly when it was there at the start or one of the calls made a write
    under it that did not fail; entries under other keys are the same. *)
Lemma run_table (cs : list (IO * Call)) (st : Statics) (db : DB) :
  ∃ db', (run cs st (mkModule (Some db))).1.2 = mkModule (Some db') ∧
    (∀ key : bytes,
       is_Some (db_mem db' !! key) ↔
       is_Some (db_mem db !! key) ∨ run_writes key cs st (mkModule (Some db))) ∧
    (∀ key : bytes,
       ¬ run_writes key cs st (mkModule (Some db)) →
       db_mem db' !! key = db_mem db !! key) ∧
    evolves (Forall (λ c, sync_fails c.1 = false) cs) db db'.
Proof.
  revert st db. induction cs as [|[io c] cs IH]; intros st db.
  { exists db. split; [done|]. split; [|split].
    - intros key. split; [by left|]. by intros [?|?].
    - done.
    - apply evolves_refl. }
  simpl. destruct (call_table io st db c) as (db1 & M1 & T1 & U1 & K1 & [e1 L1] & F1).
  destruct (call io st (mkModule (Some db)) c) as [[r m] s]. simpl in M1. subst m.
  destruct (IH s db1) as (db' & M & T & U & K & [e L] & F).
  destruct (run cs s (mkModule (Some db1))) as [[rs m'] s']. simpl in *.
  exists db'. split; [done|]. split; [|split; [|split; [|split]]].
  - intros key. rewrite T, T1. tauto.
  - intros key NW. rewrite U, U1; [done|tauto|tauto].
  - intros key S. by apply K, K1.
  - exists (e1 ++ e). by rewrite L, L1, app_assoc.
  - intros A C. apply Forall_cons in A as [A1 A]. by apply F, F1.
Qed.

(** C4, as the code has it.  [Contains(k)] returns [PR_TRUE] exactly when [k]
    is not the empty string and the store, which the call opens with
    [dbopen] when it is not open, is open and has an entry under the key of
    [k]; it returns [PR_FALSE] for a null url.  On a store that was opened on
    an empty table, it returns [PR_TRUE] exactly when [k] is not empty and
    one of the calls made since was an [AddObject] whose write was made under
    the key of [k] and did not fail, whether or not the flush after that
    write failed. *)
Theorem Contains_url_iff_entry :
  (∀ (io : IO) (this : nsDiskModule) (k : string),
     (Contains_url io this (Some k)).1 = true ↔
     is_nul (deref k) = false ∧
     ∃ db, (m_pDB this = Some db ∨
            (m_pDB this = None ∧
             dbopen io DiskCacheDBFilename [O_RDWR; O_CREAT] 384 DB_HASH
                    (mkHASHINFO (16 * 1024) 0 0 0 0 0) = Some db)) ∧
           is_Some (db_mem db !! url_key k)) ∧
  (∀ (io : IO) (this : nsDiskModule) (u : option string),
     (Contains_url io this u).2 =
       match m_pDB this with
       | Some _ => this
       | None => mkModule (dbopen io DiskCacheDBFilename [O_RDWR; O_CREAT] 384
                                  DB_HASH (mkHASHINFO (16 * 1024) 0 0 0 0 0))
       end) ∧
  (∀ (io : IO) (this : nsDiskModule), (Contains_url io this None).1 = false) ∧
  (∀ (cs : list (IO * Call)) (st : Statics) (db : DB) (io : IO) (k : string),
     db_mem db = ∅ →
     (Contains_url io (run cs st (mkModule (Some db))).1.2 (Some k)).1 = true ↔
     is_nul (deref k) = false ∧
     run_writes (url_key k) cs st (mkModule (Some db))).
Proof.
  split; [|split; [|split]].
  - intros io this k. destruct this as [[db|]].
    + destruct (lookup_results_open io db (Some k)) as [_ ->].
      destruct (is_nul (deref k)); [split; [done | by intros [? _]]|].
      rewrite bool_decide_eq_true. split.
      * intros IS. split; [done|]. exists db. split; [by left | done].
      * intros (_ & d & [[= <-]|[? _]] & IS); done.
    + unfold Contains_url, open_if_closed, InitDB. simpl.
      destruct (dbopen io _ _ _ _ _) as [db|]; simpl.
      * destruct (is_nul (deref k)); [split; [done | by intros [? _]]|].
        unfold db_get. fold (url_key k).
        destruct (db_mem db !! url_key k) as [v|] eqn:L; simpl.
        -- split; [|done]. intros _. split; [done|]. exists db.
           split; [by right | by rewrite L].
        -- split; [done|]. intros (_ & d & [?|[_ [= <-]]] & [? L']); congruence.
      * split; [done|]. by intros (_ & d & [?|[_ ?]] & _).
  - intros io this u. rewrite Contains_url_module.
    destruct this as [[db|]]; [done|].
    unfold open_if_closed, InitDB. simpl.
    by destruct (dbopen io _ _ _ _ _).
  - intros io this. unfold Contains_url.
    by destruct (m_pDB (open_if_closed io this)).
  - intros cs st db io k E.
    destruct (run_table cs st db) as (db' & M & T & _).
    rewrite M. destruct (lookup_results_open io db' (Some k)) as [_ ->].
    destruct (is_nul (deref k)); [split; [done | by intros [? _]]|].
    rewrite bool_decide_eq_true, T, E, lookup_empty. split.
    + intros [[? ?]|W]; [done|]. by split.
    + intros [_ W]. by right.
Qed.

End Table.

(* ===================================================================== *)
(** ** The caller's cache object *)
(* ===================================================================== *)

Section CallerObject.
Context `{CacheLib}.

(** C9, as the code has it.  [AddObject] sets the owning-module tag of the
    entry to [DISK], and changes nothing else of the entry, exactly when the
    store is open or can be opened and neither the entry nor its address is
    null; this happens before the write, whatever the write and the flush
    then do.  So the tag is [DISK] whenever [AddObject] returns [PR_TRUE],
    and the entry is untouched when the open fails or the entry or its
    address is null. *)
Theorem AddObject_module_tag
    (io : IO) (st : Statics) (this : nsDiskModule) (p : option nsCacheObject) :
  (AddObject io st this p).1.2 =
    match p with
    | Some obj =>
        if (InitDB io this).1 && bool_decide (is_Some (Address obj))
        then Some (set_Module obj DISK)
        else Some obj
    | None => None
    end ∧
  ((AddObject io st this p).1.1.1 = true →
   ∃ obj, p = Some obj ∧ (AddObject io st this p).1.2 = Some (set_Module obj DISK)).
Proof.
  split.
  - unfold AddObject. pose proof (InitDB_result io this) as R.
    destruct (InitDB io this) as [ok m]. simpl in *.
    destruct ok; simpl; [|by destruct p].
    symmetry in R. apply bool_decide_eq_true in R as [db Edb]. rewrite Edb.
    destruct p as [obj|]; [|done].
    destruct (Address obj) as [addr|]; simpl; [|done].
    destruct (db_put io db _ _ 0) as [s db1].
    by destruct (if s =? 0 then db_sync io db1 0 else (s, db1)) as [s' db2].
  - intros T.
    destruct (AddObject io st this p) as [[[r m] q] s] eqn:E. simpl in T. subst r.
    apply AddObject_true_inv in E as (_ & obj & _ & _ & -> & _ & _ & _ & -> & _).
    by exists obj.
Qed.

(** [Contains(io_pObject)] hands its caller the pointer and the pointee that
    were passed in. *)
Lemma Contains_obj_caller_object
    (io : IO) (this : nsDiskModule) (p : option nsCacheObject) :
  (Contains_obj io this p).2 = p.
Proof.
  unfold Contains_obj. by destruct (Contains_obj_body io this p) as [[r m] q].
Qed.

(** On a hit, the parameter of the body is the object that [GetObject]
    returned for the address of the entry. *)
Lemma Contains_obj_body_hit
    (io : IO) (this : nsDiskModule) (db : DB) (obj : nsCacheObject) :
  m_pDB this = Some db →
  (Contains_obj_body io this (Some obj)).1.1 = true →
  (Contains_obj_body io this (Some obj)).2 =
    (GetObject_url io this (Address obj)).1.
Proof.
  intros E. unfold Contains_obj_body.
  rewrite (open_if_closed_open io this db E), E.
  destruct (GetObject_url io this (Address obj)) as [t m].
  by destruct t.
Qed.

(** [AddObject] of an entry whose address is the empty string, on an open
    store, with buffers that the statics do not hold and without failure: the
    call returns [PR_TRUE] and the table has the blob under the empty key. *)
Lemma AddObject_empty_key
    (io : IO) (st : Statics) (this : nsDiskModule) (db : DB) (obj : nsCacheObject) :
  m_pDB this = Some db → Address obj = Some EmptyString → not_held st obj →
  put_fails io = false → sync_fails io = false →
  (AddObject io st this (Some obj)).1.1.1 = true ∧
  ∃ db', m_pDB (AddObject io st this (Some obj)).1.1.2 = Some db' ∧
         db_mem db' = <[ [] := Info obj ]> (db_mem db).
Proof.
  intros E EA NH P S. rewrite (module_eta this db E).
  rewrite (AddObject_open_eq io st db obj _ EA), P, S. simpl.
  destruct (not_held_read io st obj _ NH EA) as [-> ->].
  split; [done|]. by eexists.
Qed.

End CallerObject.

(* ===================================================================== *)
(** ** One call on an open store *)
(* ===================================================================== *)

Section OpenStore.
Context `{CacheLib}.


(** X2.  A lookup ([Contains], [GetObject], with either kind of argument)
    writes nothing: it leaves an open store exactly as it was, table, flushed
    content and trace, and its only effect on a store that is not open is the
    lazy open.  It leaves the statics of [AddObject] alone. *)
Theorem lookups_leave_store
    (io : IO) (st : Statics) (this : nsDiskModule) (c : Call) :
  is_lookup c = true →
  (call io st this c).1.2 = open_if_closed io this ∧
  (call io st this c).2 = st ∧
  (∀ db, m_pDB this = Some db → (call io st this c).1.2 = this).
Proof.
  intros L. destruct (lookup_call_module io st this c L) as [M S].
  split; [done|]. split; [done|].
  intros db E. rewrite M. by apply open_if_closed_open with db.
Qed.

(** X8.  [AddObject] returns [PR_TRUE] exactly when the store is open or can
    be opened, neither the entry nor its address is null, and neither the
    write nor the flush fails. *)
Theorem AddObject_true_iff
    (io : IO) (st : Statics) (this : nsDiskModule) (p : option nsCacheObject) :
  (AddObject io st this p).1.1.1 = true ↔
  (InitDB io this).1 = true ∧
  (∃ obj addr, p = Some obj ∧ Address obj = Some addr) ∧
  put_fails io = false ∧ sync_fails io = false.
Proof.
  pose proof (InitDB_result io this) as R.
  destruct (m_pDB (InitDB io this).2) as [db|] eqn:E.
  - rewrite AddObject_after_InitDB, (module_eta _ db E). rewrite R. clear R.
    destruct p as [obj|]; [destruct (Address obj) as [addr|] eqn:EA|].
    + rewrite (AddObject_open_eq io st db obj addr EA).
      destruct (put_fails io); [|destruct (sync_fails io)]; simpl.
      * split; [done | by intros (_ & _ & ? & _)].
      * split; [done | by intros (_ & _ & _ & ?)].
      * split; [|done]. intros _. split; [done|]. split; [|done]. by exists obj, addr.
    + rewrite AddObject_open_null; [|by intros ? [= <-]]. simpl.
      split; [done|]. intros (_ & (o & a & [= <-] & EA') & _). congruence.
    + rewrite AddObject_open_null; [|done]. simpl.
      split; [done|]. by intros (_ & (o & a & ? & _) & _).
  - unfold AddObject. destruct (InitDB io this) as [ok m]. simpl in *.
    subst ok. simpl. split; [done | by intros [? _]].
Qed.

(** X12.  The two [Contains] overloads agree: for an entry, the result is
    the result of [Contains] on the address of the entry, and the module is
    left in the same state; for a null entry the result is [PR_FALSE]. *)
Theorem Contains_obj_agrees_Contains_url
    (io : IO) (this : nsDiskModule) (obj : nsCacheObject) :
  (Contains_obj io this (Some obj)).1.1 = (Contains_url io this (Address obj)).1 ∧
  (Contains_obj io this (Some obj)).1.2 = (Contains_url io this (Address obj)).2 ∧
  (Contains_obj io this None).1.1 = false.
Proof.
  split; [|split].
  - unfold Contains_obj, Contains_obj_body, Contains_url, GetObject_url.
    rewrite open_if_closed_idem.
    destruct (m_pDB (open_if_closed io this)) as [db|]; [|done].
    destruct (Address obj) as [k|]; [|done].
    destruct (is_nul (deref k)); [done|].
    unfold db_get. by destruct (db_mem db !! _).
  - by rewrite Contains_obj_module, Contains_url_module.
  - unfold Contains_obj, Contains_obj_body.
    by destruct (m_pDB (open_if_closed io this)).
Qed.

(** X13.  Once the store is open, [dbopen] is never consulted again: a call
    on an open store returns the same result and leaves the same state
    whatever [dbopen] would do, as long as write, flush and freed memory
    behave alike. *)
Theorem open_store_ignores_dbopen
    (io io' : IO) (st : Statics) (this : nsDiskModule) (db : DB) (c : Call) :
  m_pDB this = Some db →
  put_fails io = put_fails io' → sync_fails io = sync_fails io' →
  freed_mem io = freed_mem io' →
  call io st this c = call io' st this c.
Proof.
  intros E P S F. rewrite (module_eta this db E).
  destruct c as [p|p|u|i|u]; simpl; try done.
  unfold AddObject, db_put, db_sync, read_chars, read_bytes. simpl.
  by rewrite P, S, F.
Qed.

(** X15.  [InitDB] returns [PR_TRUE] exactly when it leaves the module with
    a handle, so a method that goes on after [InitDB] has returned [PR_TRUE]
    never uses a null handle; it keeps the handle of a store that is already
    open, and calling it again right away changes nothing. *)
Theorem InitDB_true_handle (io : IO) (this : nsDiskModule) :
  ((InitDB io this).1 = true ↔ is_Some (m_pDB (InitDB io this).2)) ∧
  (is_Some (m_pDB this) → InitDB io this = (true, this)) ∧
  InitDB io (InitDB io this).2 = InitDB io this.
Proof.
  split; [|split].
  - rewrite InitDB_result. apply bool_decide_eq_true.
  - intros [db E]. by apply InitDB_open with db.
  - destruct this as [[db|]]; [done|].
    unfold InitDB. simpl. by destruct (dbopen io _ _ _ _ _).
Qed.

End OpenStore.

(* ===================================================================== *)
(** ** Invariants of an open store *)
(* ===================================================================== *)

Section Invariants.
Context `{CacheLib}.

(** X3.  No call closes an open store or takes an entry out of it: after any
    sequence of calls the store is still open, every key that had an entry
    still has one, and the trace of writes and flushes has only grown. *)
Theorem run_keeps_entries
    (cs : list (IO * Call)) (st : Statics) (this : nsDiskModule) (db : DB) :
  m_pDB this = Some db →
  ∃ db', m_pDB (run cs st this).1.2 = Some db' ∧
         dom (db_mem db) ⊆ dom (db_mem db') ∧
         ∃ evs, db_log db' = db_log db ++ evs.
Proof.
  intros E. rewrite (module_eta this db E).
  destruct (run_table cs st db) as (db' & -> & _ & _ & K & L & _).
  exists db'. split; [done|]. split; [|done].
  intros key. rewrite !elem_of_dom. apply K.
Qed.

(** X4.  A url under whose key no [AddObject] of a sequence of calls made a
    write that went through is looked up with the same result after the
    sequence as before it, whatever the calls did and whichever of them
    failed; so a url that had no entry and was never written is reported
    absent by [GetObject] and by [Contains].  The key of a write is the one
    that the call reads once the statics' buffers are freed. *)
Theorem run_untouched_url
    (cs : list (IO * Call)) (st : Statics) (this : nsDiskModule) (db : DB)
    (io : IO) (k : string) :
  m_pDB this = Some db →
  ¬ run_writes (url_key k) cs st this →
  (GetObject_url io (run cs st this).1.2 (Some k)).1 = (GetObject_url io this (Some k)).1 ∧
  (Contains_url io (run cs st this).1.2 (Some k)).1 = (Contains_url io this (Some k)).1 ∧
  (db_mem db !! url_key k = None →
   (GetObject_url io (run cs st this).1.2 (Some k)).1 = None ∧
   (Contains_url io (run cs st this).1.2 (Some k)).1 = false).
Proof.
  intros E. rewrite (module_eta this db E). intros NW.
  destruct (run_table cs st db) as (db' & -> & _ & U & _).
  specialize (U (url_key k) NW).
  destruct (lookup_results_open io db' (Some k)) as [-> ->].
  destruct (lookup_results_open io db (Some k)) as [-> ->].
  destruct (is_nul (deref k)); [done|].
  rewrite U. split; [done|]. split; [done|]. by intros ->.
Qed.

(** X5.  When the table of an open store has been flushed and no flush fails
    during a sequence of calls, the table is flushed after the sequence as
    well: whatever the calls wrote is in the backing file, also when some of
    the writes failed. *)
Theorem run_flushed
    (cs : list (IO * Call)) (st : Statics) (this : nsDiskModule) (db : DB) :
  m_pDB this = Some db →
  Forall (λ c, sync_fails c.1 = false) cs →
  db_disk db = db_mem db →
  ∃ db', m_pDB (run cs st this).1.2 = Some db' ∧ db_disk db' = db_mem db'.
Proof.
  intros E A C. rewrite (module_eta this db E).
  destruct (run_table cs st db) as (db' & -> & _ & _ & _ & _ & F).
  exists db'. split; [done|]. by apply F.
Qed.

End Invariants.

(* ===================================================================== *)
(** ** Keys of urls *)
(* ===================================================================== *)






(* ===================================================================== *)
(** ** Writes, failures and the end of the store *)
(* ===================================================================== *)

Section Lifecycle.
Context `{CacheLib}.







(** X10.  The destructor leaves the module not open, as the constructor made
    it; on a module that is not open it does nothing and reports no file
    content, so running it twice is running it once.  When its flush or the
    flush of its close succeeds, the backing file holds the whole table,
    including entries whose flush had failed before. *)
Theorem delete_closes (io io' : IO) (this : nsDiskModule) :
  (nsDiskModule_delete io this).1 = nsDiskModule_new 0 ∧
  nsDiskModule_delete io' (nsDiskModule_delete io this).1 = (nsDiskModule_new 0, None) ∧
  (m_pDB this = None → nsDiskModule_delete io this = (this, None)) ∧
  (∀ db, m_pDB this = Some db → sync_fails io = false ∨ close_fails io = false →
         (nsDiskModule_delete io this).2 = Some (db_mem db)).
Proof.
  destruct this as [[db|]]; unfold nsDiskModule_delete, db_sync, db_close; simpl.
  - destruct (sync_fails io) eqn:S; destruct (close_fails io) eqn:C; simpl;
      repeat split; try done; intros d [= <-] [?|?]; done.
  - repeat split; done.
Qed.



End Lifecycle.

(* ===================================================================== *)
(** ** The laws on the concrete store *)
(* ===================================================================== *)

Import Scenario.
#[local] Existing Instance Scenario.lib.

Lemma AddObject_true_flushed_witness :
  put_fails io_ok = false ∧ sync_fails io_ok = false ∧
  ∃ db db' obj addr,
    m_pDB (InitDB io_ok opened).2 = Some db ∧ m_pDB with_entry1 = Some db' ∧
    Some entry1 = Some obj ∧ Address obj = Some addr ∧
    db_log db' = db_log db ++ [EvPut (AddObject_key io_ok Statics_init obj)
                                     (AddObject_blob io_ok Statics_init obj) RET_SUCCESS;
                               EvSync RET_SUCCESS] ∧
    db_disk db' = db_mem db' ∧
    db_disk db' !! AddObject_key io_ok Statics_init obj
      = Some (AddObject_blob io_ok Statics_init obj) ∧
    (not_held Statics_init obj →
     AddObject_key io_ok Statics_init obj = url_key addr ∧
     AddObject_blob io_ok Statics_init obj = Info obj).
Proof.
  apply (AddObject_true_flushed (H := lib) io_ok Statics_init st_entry1 opened
           with_entry1 (Some entry1) (Some entry1_tagged)).
  reflexivity.
Defined.

Lemma Contains_url_iff_entry_witness :
  (Contains_url io_ok
     (run [(io_sync_fails, CallAddObject (Some entry1))] Statics_init opened).1.2
     (Some url_a)).1 = true ↔
  is_nul (deref url_a) = false ∧
  run_writes (url_key url_a) [(io_sync_fails, CallAddObject (Some entry1))]
             Statics_init opened.
Proof.
  apply (proj2 (proj2 (proj2 (Contains_url_iff_entry (H := lib))))
           [(io_sync_fails, CallAddObject (Some entry1))] Statics_init
           fresh_db io_ok url_a).
  reflexivity.
Defined.

(** C4 fails as stated: on a store opened on an empty table, an [AddObject]
    under "http://a" whose flush fails returns [PR_FALSE], and [Contains]
    then returns [PR_TRUE] for "http://a" although no [AddObject] has
    succeeded. *)
Lemma Contains_true_after_failed_AddObject :
  (run [(io_sync_fails, CallAddObject (Some entry1));
        (io_ok, CallContains (Some url_a))] Statics_init opened).1.1
  = [RetBool false; RetBool true].
Proof. reflexivity. Qed.

Lemma unavailable_store_fails_witness :
  (AddObject io_unwritable Statics_init closed (Some entry1)).1.1.1 = false ∧
  GetObject_url io_unwritable closed (Some url_a) = (None, mkModule None) ∧
  Contains_url io_unwritable closed (Some url_a) = (false, mkModule None).
Proof.
  destruct (unavailable_store_fails (H := lib) io_unwritable Statics_init closed
              eq_refl eq_refl) as (A & G & _ & C & _).
  exact (conj (proj1 (A (Some entry1))) (conj (G (Some url_a)) (C (Some url_a)))).
Defined.

Lemma AddObject_module_tag_witness :
  ∃ obj, Some entry1 = Some obj ∧
         (AddObject io_ok Statics_init opened (Some entry1)).1.2
           = Some (set_Module obj DISK).
Proof.
  apply (proj2 (AddObject_module_tag (H := lib) io_ok Statics_init opened (Some entry1))).
  reflexivity.
Defined.

(** C1, on the code.  A write of [entry1] fails and leaves the addresses of
    its two buffers in the statics.  The caller tries again with the same
    entry: [AddObject] frees both buffers, reads the url and the blob from
    the freed memory, writes what it finds there and returns [PR_TRUE].
    [GetObject] on the address of the entry then returns the null object:
    the entry was filed under what the freed buffer held. *)
Theorem AddObject_retry_loses_entry :
  AddObject io_put_fails Statics_init opened (Some entry1)
    = (false, mkModule (Some (mkDB ∅ ∅ [EvPut (B url_a) (B "meta1") RET_ERROR])),
       Some entry1_tagged, mkStatics 4096 8192) ∧
  Address entry1_tagged = Some url_a ∧ Info entry1_tagged = B "meta1" ∧
  (AddObject io_ok (mkStatics 4096 8192)
     (mkModule (Some (mkDB ∅ ∅ [EvPut (B url_a) (B "meta1") RET_ERROR])))
     (Some entry1_tagged)).1.1.1 = true ∧
  (GetObject_url io_ok
     (AddObject io_ok (mkStatics 4096 8192)
        (mkModule (Some (mkDB ∅ ∅ [EvPut (B url_a) (B "meta1") RET_ERROR])))
        (Some entry1_tagged)).1.1.2 (Some url_a)).1 = None ∧
  db_mem <$> m_pDB
     (AddObject io_ok (mkStatics 4096 8192)
        (mkModule (Some (mkDB ∅ ∅ [EvPut (B url_a) (B "meta1") RET_ERROR])))
        (Some entry1_tagged)).1.1.2 = Some {[ garbage := garbage ]}.
Proof. repeat split; reflexivity. Qed.

(** C2, on the code.  [entry1] is written, its owner gives it the new blob
    "meta2" and writes it again.  The second [AddObject] frees the url
    buffer of the entry before it reads the url from it: it returns
    [PR_TRUE], and the new blob is filed under what the freed buffer held.
    [GetObject] on the address of the entry still returns the first blob, and
    the table has two entries. *)
Theorem AddObject_same_entry_twice :
  AddObject io_ok Statics_init opened (Some entry1)
    = (true, with_entry1, Some entry1_tagged, mkStatics 4096 8192) ∧
  Address entry1_updated = Some url_a ∧ Info entry1_updated = B "meta2" ∧
  (AddObject io_ok (mkStatics 4096 8192) with_entry1 (Some entry1_updated)).1.1.1
    = true ∧
  (GetObject_url io_ok
     (AddObject io_ok (mkStatics 4096 8192) with_entry1 (Some entry1_updated)).1.1.2
     (Some url_a)).1 = Some (set_Info new_nsCacheObject (B "meta1")) ∧
  db_mem <$> m_pDB
     (AddObject io_ok (mkStatics 4096 8192) with_entry1 (Some entry1_updated)).1.1.2
    = Some {[ B url_a := B "meta1"; garbage := B "meta2" ]}.
Proof. repeat split; reflexivity. Qed.

(** C3, on the code.  [AddObject] does not test the address for emptiness:
    with the store open and no failure, an entry whose address is the empty
    string is written under the empty key and the call returns [PR_TRUE];
    [Contains] and [GetObject], which do test for it, then report the empty
    url as absent. *)
Theorem AddObject_empty_key_accepted :
  (AddObject io_ok Statics_init opened (Some entry_empty_key)).1.1.1 = true ∧
  db_mem <$> m_pDB (AddObject io_ok Statics_init opened (Some entry_empty_key)).1.1.2
    = Some {[ [] := B "meta" ]} ∧
  db_mem <$> m_pDB opened = Some ∅ ∧
  (Contains_url io_ok
     (AddObject io_ok Statics_init opened (Some entry_empty_key)).1.1.2 (Some "")).1
    = false ∧
  (GetObject_url io_ok
     (AddObject io_ok Statics_init opened (Some entry_empty_key)).1.1.2 (Some "")).1
    = None.
Proof. repeat split; reflexivity. Qed.

(** C8, on the code.  With an entry stored under "http://a", [Contains] on
    a caller's entry with that address returns [PR_TRUE]; inside the body the
    parameter is assigned the stored instance that [GetObject] built, but the
    caller still has the entry it passed in, which is not the stored one. *)
Theorem Contains_obj_keeps_caller_entry :
  Contains_obj io_ok with_entry1 (Some probe) = (true, with_entry1, Some probe) ∧
  (GetObject_url io_ok with_entry1 (Address probe)).1
    = Some (set_Info new_nsCacheObject (B "meta1")) ∧
  (Contains_obj_body io_ok with_entry1 (Some probe)).2
    = Some (set_Info new_nsCacheObject (B "meta1")) ∧
  Some probe ≠ Some (set_Info new_nsCacheObject (B "meta1")).
Proof. repeat split; try reflexivity. discriminate. Qed.

(** C9 fails as stated: when the write fails, [AddObject] returns [PR_FALSE]
    and the tag of the entry has gone from 0 to [DISK]. *)
Lemma AddObject_false_changes_tag :
  (AddObject io_put_fails Statics_init opened (Some entry1)).1.1.1 = false ∧
  Module_ entry1 = 0 ∧
  Module_ <$> (AddObject io_put_fails Statics_init opened (Some entry1)).1.2
    = Some (DISK) ∧
  DISK ≠ Module_ entry1.
Proof. repeat split; try reflexivity. discriminate. Qed.

(** The scenario on a store that is opened by its first call, with an entry
    of its own for each write: both writes succeed, each lookup returns the
    blob written last, and a url that was never written is reported absent. *)
Example scenario_run :
  (run [(io_ok, CallAddObject (Some entry1));
        (io_ok, CallGetObject (Some url_a));
        (io_ok, CallAddObject (Some entry2));
        (io_ok, CallGetObject (Some url_a));
        (io_ok, CallContains (Some url_b))] Statics_init closed).1.1
  = [RetBool true;
     RetObject (Some (set_Info new_nsCacheObject (B "meta1")));
     RetBool true;
     RetObject (Some (set_Info new_nsCacheObject (B "meta2")));
     RetBool false].
Proof. reflexivity. Qed.

(* ===================================================================== *)
(** ** The further laws on the concrete store *)
(* ===================================================================== *)


Lemma lookups_leave_store_witness :
  (call io_ok st_entry1 with_entry1 (CallGetObject (Some url_a))).1.2
    = open_if_closed io_ok with_entry1 ∧
  (call io_ok st_entry1 with_entry1 (CallGetObject (Some url_a))).2 = st_entry1 ∧
  (∀ db, m_pDB with_entry1 = Some db →
         (call io_ok st_entry1 with_entry1 (CallGetObject (Some url_a))).1.2
           = with_entry1).
Proof.
  exact (lookups_leave_store (H := lib) io_ok st_entry1 with_entry1
           (CallGetObject (Some url_a)) eq_refl).
Defined.

Lemma run_keeps_entries_witness :
  ∃ db', m_pDB (run [(io_ok, CallAddObject (Some entry1_updated));
                     (io_ok, CallContains (Some url_b))] st_entry1 with_entry1).1.2
           = Some db' ∧
         dom (db_mem db_entry1) ⊆ dom (db_mem db') ∧
         ∃ evs, db_log db' = db_log db_entry1 ++ evs.
Proof.
  exact (run_keeps_entries (H := lib)
           [(io_ok, CallAddObject (Some entry1_updated));
            (io_ok, CallContains (Some url_b))]
           st_entry1 with_entry1 db_entry1 eq_refl).
Defined.

Lemma run_untouched_url_witness :
  (GetObject_url io_ok
     (run [(io_ok, CallAddObject (Some entry_b));
           (io_ok, CallContains (Some url_a))] st_entry1 with_entry1).1.2
     (Some url_a)).1
    = (GetObject_url io_ok with_entry1 (Some url_a)).1.
Proof.
  refine (proj1 (run_untouched_url (H := lib)
           [(io_ok, CallAddObject (Some entry_b));
            (io_ok, CallContains (Some url_a))]
           st_entry1 with_entry1 db_entry1 io_ok url_a eq_refl _)).
  simpl. intros [(_ & K & _)|[[]|[]]]. vm_compute in K. discriminate K.
Defined.

Lemma run_flushed_witness :
  ∃ db', m_pDB (run [(io_put_fails, CallAddObject (Some entry2));
                     (io_ok, CallAddObject (Some entry_b))] st_entry1 with_entry1).1.2
           = Some db' ∧
         db_disk db' = db_mem db'.
Proof.
  refine (run_flushed (H := lib)
           [(io_put_fails, CallAddObject (Some entry2));
            (io_ok, CallAddObject (Some entry_b))]
           st_entry1 with_entry1 db_entry1 eq_refl _ eq_refl).
  repeat constructor.
Defined.




Lemma AddObject_true_iff_witness :
  (AddObject io_ok Statics_init closed (Some entry1)).1.1.1 = true.
Proof.
  apply (AddObject_true_iff (H := lib) io_ok Statics_init closed (Some entry1)).
  split; [reflexivity|]. split; [|split; reflexivity].
  exists entry1, url_a. split; reflexivity.
Defined.


Lemma delete_closes_witness :
  (nsDiskModule_delete io_sync_fails
     (AddObject io_sync_fails Statics_init opened (Some entry1)).1.1.2).2
    = Some {[ B url_a := B "meta1" ]}.
Proof.
  refine (proj2 (proj2 (proj2
            (delete_closes io_sync_fails io_ok
               (AddObject io_sync_fails Statics_init opened (Some entry1)).1.1.2)))
            (mkDB {[ B url_a := B "meta1" ]} ∅
                  [EvPut (B url_a) (B "meta1") RET_SUCCESS; EvSync RET_ERROR])
            eq_refl _).
  right. reflexivity.
Defined.


Lemma open_store_ignores_dbopen_witness :
  call io_ok st_entry1 with_entry1 (CallAddObject (Some entry2))
    = call io_unwritable st_entry1 with_entry1 (CallAddObject (Some entry2)).
Proof.
  exact (open_store_ignores_dbopen (H := lib) io_ok io_unwritable st_entry1 with_entry1
           db_entry1 (CallAddObject (Some entry2)) eq_refl eq_refl eq_refl eq_refl).
Defined.


Lemma InitDB_true_handle_witness : InitDB io_unwritable with_entry1 = (true, with_entry1).
Proof.
  apply (proj1 (proj2 (InitDB_true_handle (H := lib) io_unwritable with_entry1))).
  by exists db_entry1.
Defined.


